(** * AdVision front end: the API client of [src/api/client.js]

    A shallow embedding of the axios wrapper that attaches the bearer token
    to outgoing requests and refreshes an expired access token once for all
    the requests that fail with 401 in the meantime.

    The module state of the source ([isRefreshing], [failedQueue]), the
    browser objects it touches ([localStorage], [window.location]) and the
    calls it issues are explicit here.  The only [await] of the response
    interceptor splits it into the part that runs when an error arrives
    ([onRejected]) and the part that runs when the refresh call settles
    ([afterRefresh]); the runtime executes each part without interruption.
    Console logging has no effect on any of this and is left out. *)

From Stdlib Require Import ZArith String Bool List Lia.
From stdpp Require Import base gmap strings list fin_maps.

Open Scope string_scope.

(** ** JavaScript values the client handles *)

Module Js.

(** What [localStorage.getItem], a destructured response field or an
    environment variable can be in this file. *)
Inductive jsval :=
| JUndefined
| JNull
| JString (s : string).

(** Interpolation inside a template literal. *)
Definition to_string (v : jsval) : string :=
  match v with
  | JUndefined => "undefined"
  | JNull => "null"
  | JString s => s
  end.

(** Truthiness, as tested by [if (v)], [!v] and [v && ...]. *)
Definition truthy (v : jsval) : bool :=
  match v with
  | JString s => negb (String.eqb s "")
  | _ => false
  end.

(** [s.includes(searchString)] *)
Fixpoint includes (searchString s : string) : bool :=
  String.prefix searchString s ||
  match s with
  | EmptyString => false
  | String _ s' => includes searchString s'
  end.

(** A function parameter declared [p = null]: [undefined] takes the
    default. *)
Definition default_null (v : jsval) : jsval :=
  match v with
  | JUndefined => JNull
  | _ => v
  end.

End Js.
Import Js.

(** ** localStorage *)

Abbreviation Storage := (gmap string string).

Definition getItem (s : Storage) (key : string) : jsval :=
  match s !! key with
  | Some v => JString v
  | None => JNull
  end.

Definition setItem (s : Storage) (key : string) (v : jsval) : Storage :=
  <[key := to_string v]> s.

Definition removeItem (s : Storage) (key : string) : Storage :=
  delete key s.

(** ** Request descriptors and errors *)

(** An axios request config.  [headers] is the header object, [data] a JSON
    body with string fields, [_retry] the marker the response interceptor
    sets (absent counts as false). *)
Record Config := mkConfig {
  url : string;
  method : option string;
  baseURL : jsval;
  headers : gmap string string;
  data : gmap string string;
  _retry : bool
}.

Definition set_header (name value : string) (c : Config) : Config :=
  {| url := url c; method := method c; baseURL := baseURL c;
     headers := <[name := value]> (headers c);
     data := data c; _retry := _retry c |}.

Definition set_retry (b : bool) (c : Config) : Config :=
  {| url := url c; method := method c; baseURL := baseURL c;
     headers := headers c; data := data c; _retry := b |}.

Record Response := mkResponse {
  status : Z;
  statusText : string
}.

(** An axios error.  axios attaches the config to every error of a request
    it dispatched; [response] is absent for network failures. *)
Record AxiosError := mkError {
  config : Config;
  response : option Response;
  message : string;
  code : option string
}.

Definition with_config (c : Config) (e : AxiosError) : AxiosError :=
  {| config := c; response := response e; message := message e;
     code := code e |}.

(** ** Request interceptor (client.js 34-52) *)

Definition bearer (token : jsval) : string := "Bearer " +:+ to_string token.

Definition requestInterceptor (localStorage : Storage) (config : Config)
  : Config :=
  let token := getItem localStorage "access_token" in
  if truthy token
     && negb (includes "/auth/login" (url config))
     && negb (includes "/auth/registration" (url config))
  then set_header "Authorization" (bearer token) config
  else config.

(** ** Module state of the response interceptor (client.js 55-56)

    A queue entry is the [{ resolve, reject }] pair of a promise whose
    [then] handler closes over the request that is waiting; the entry is
    identified with that request.  Nothing else holds the request while it
    waits, so the captured value is the object the handler later updates.
    [window_location] lists the values assigned to [window.location.href],
    oldest first. *)

Record Deferred := mkDeferred { originalRequest : Config }.

Record State := mkState {
  isRefreshing : bool;
  failedQueue : list Deferred;
  localStorage : Storage;
  window_location : list string
}.

Definition set_isRefreshing (b : bool) (st : State) : State :=
  {| isRefreshing := b; failedQueue := failedQueue st;
     localStorage := localStorage st;
     window_location := window_location st |}.

Definition set_failedQueue (q : list Deferred) (st : State) : State :=
  {| isRefreshing := isRefreshing st; failedQueue := q;
     localStorage := localStorage st;
     window_location := window_location st |}.

Definition set_localStorage (s : Storage) (st : State) : State :=
  {| isRefreshing := isRefreshing st; failedQueue := failedQueue st;
     localStorage := s; window_location := window_location st |}.

Definition navigate (href : string) (st : State) : State :=
  {| isRefreshing := isRefreshing st; failedQueue := failedQueue st;
     localStorage := localStorage st;
     window_location := window_location st ++ [href] |}.

(** The two [removeItem] calls of the teardown paths. *)
Definition clearTokens (st : State) : State :=
  set_localStorage
    (removeItem (removeItem (localStorage st) "access_token") "refresh_token")
    st.

(** ** processQueue (client.js 58-68) *)

(** What [forEach] does to one entry.  The [error] argument is [null] or an
    error object, so [if (error)] tests for its presence. *)
Inductive Settlement :=
| Resolve (prom : Deferred) (token : jsval)
| Reject (prom : Deferred) (error : AxiosError).

Definition processQueue (error : option AxiosError) (token : jsval)
    (st : State) : State * list Settlement :=
  let token := default_null token in
  (set_failedQueue [] st,
   map (fun prom =>
          match error with
          | Some e => Reject prom e
          | None => Resolve prom token
          end)
       (failedQueue st)).

(** ** Response interceptor, error handler (client.js 76-177) *)

(** How an invocation leaves the handler. *)
Inductive Outcome :=
| Rejects (error : AxiosError)
    (** [return Promise.reject(error)] *)
| Suspended (prom : Deferred)
    (** parked on [failedQueue], line 122-129 *)
| Awaits (request : Config) (call : Config)
    (** waiting at [await axios.post(...)], line 148 *).

(** How a resumed continuation ends. *)
Inductive Completion :=
| Replays (request : Config)
    (** [return apiClient(originalRequest)] *)
| Throws (error : AxiosError)
    (** [return Promise.reject(...)] *).

(** What the refresh call settles with: the [access] field of the response
    body ([undefined] when the body has none), or the error axios rejects
    with.  A response without a body object makes the destructuring on line
    152 throw inside the [try], which the [catch] clause handles like a
    rejected call: that case is [Failed] too. *)
Inductive RefreshResult :=
| Fulfilled (access : jsval)
| Failed (refreshError : AxiosError).

Definition is401 (error : AxiosError) : bool :=
  match response error with
  | Some r => (status r =? 401)%Z
  | None => false
  end.

Definition isAuthEndpoint (u : string) : bool :=
  includes "/auth/login" u
  || includes "/auth/registration" u
  || includes "/auth/google" u.

(** [axios.post(url, data)] on the library's default instance: a fresh
    config, no base URL, no interceptor of this file applied. *)
Definition axios_post (u : string) (body : gmap string string) : Config :=
  {| url := u; method := Some "post"; baseURL := JUndefined;
     headers := ∅; data := body; _retry := false |}.

(** The handlers chained on a queue entry (lines 124-129). *)
Definition resume (s : Settlement) : Completion :=
  match s with
  | Resolve prom token =>
      Replays (set_header "Authorization" (bearer token) (originalRequest prom))
  | Reject prom err => Throws err
  end.

(** [apiClient(config)]: the config as it leaves the request interceptor. *)
Definition apiClient (st : State) (request : Config) : Config :=
  requestInterceptor (localStorage st) request.

Section Client.

(** [import.meta.env.VITE_API_URL] *)
Variable API_URL : jsval.

Definition refreshCall (refreshToken : jsval) : Config :=
  axios_post (to_string API_URL +:+ "/auth/token/refresh/")
             {[ "refresh" := to_string refreshToken ]}.

(** Lines 107-143 and 176: everything up to the [await]. *)
Definition onRejected (st : State) (error : AxiosError) : State * Outcome :=
  let request := config error in
  if is401 error && negb (_retry request) then
    if isAuthEndpoint (url request) then
      (st, Rejects error)
    else if isRefreshing st then
      let prom := mkDeferred request in
      (set_failedQueue (failedQueue st ++ [prom]) st, Suspended prom)
    else
      let request := set_retry true request in
      let st := set_isRefreshing true st in
      let refreshToken := getItem (localStorage st) "refresh_token" in
      if negb (truthy refreshToken) then
        (navigate "/login" (clearTokens st),
         Rejects (with_config request error))
      else
        (st, Awaits request (refreshCall refreshToken))
  else
    (st, Rejects error).

(** Lines 152-173: the rest of the handler once the refresh call has
    settled, for the request that started it. *)
Definition afterRefresh (st : State) (request : Config) (r : RefreshResult)
  : State * list Settlement * Completion :=
  match r with
  | Fulfilled access =>
      let st :=
        set_localStorage (setItem (localStorage st) "access_token" access) st in
      let '(st, settled) := processQueue None access st in
      let request := set_header "Authorization" (bearer access) request in
      (set_isRefreshing false st, settled, Replays request)
  | Failed refreshError =>
      let '(st, settled) := processQueue (Some refreshError) JNull st in
      let st := navigate "/login" (clearTokens st) in
      (set_isRefreshing false st, settled, Throws refreshError)
  end.

(** *** The client at work

    Several requests are outstanding at once; their failures and the
    outcome of a refresh call reach the handler one at a time, in any
    order.  [refreshing] holds the handlers suspended at line 148, each
    with the request it is handling; [wire] logs the calls the
    interceptor itself issued, oldest first. *)

Inductive Call :=
| ViaAxios (c : Config)      (** [axios.post], no interceptors *)
| ViaApiClient (c : Config)  (** [apiClient(...)], through the pipeline *).

Record System := mkSystem {
  coordinator : State;
  refreshing : list Config;
  wire : list Call
}.

Inductive Event :=
| ResponseError (error : AxiosError)
    (** a request of [apiClient] failed *)
| RefreshSettles (i : nat) (r : RefreshResult)
    (** the call awaited by the [i]-th suspended handler settled *).

Definition replayed (st : State) (c : Completion) : list Call :=
  match c with
  | Replays request => [ViaApiClient (apiClient st request)]
  | Throws _ => []
  end.

Definition step (s : System) (ev : Event) : option System :=
  match ev with
  | ResponseError error =>
      let '(st, o) := onRejected (coordinator s) error in
      Some match o with
           | Awaits request call =>
               mkSystem st (refreshing s ++ [request])
                        (wire s ++ [ViaAxios call])
           | _ => mkSystem st (refreshing s) (wire s)
           end
  | RefreshSettles i r =>
      match refreshing s !! i with
      | Some request =>
          let '(st, settled, c) := afterRefresh (coordinator s) request r in
          Some (mkSystem st (delete i (refreshing s))
                  (wire s ++ replayed st c
                          ++ concat (map (fun x => replayed st (resume x))
                                         settled)))
      | None => None
      end
  end.

Fixpoint run (s : System) (evs : list Event) : option System :=
  match evs with
  | [] => Some s
  | ev :: evs =>
      match step s ev with
      | Some s' => run s' evs
      | None => None
      end
  end.

(** The calls that went out through the bare library. *)
Definition bareCalls (w : list Call) : list Config :=
  omap (fun c => match c with ViaAxios c => Some c | _ => None end) w.

(** A page that has just loaded the module. *)
Definition boot (store : Storage) : System :=
  mkSystem (mkState false [] store []) [] [].

Definition reachable (s : System) : Prop :=
  exists store evs, run (boot store) evs = Some s.

End Client.

(** ** Vocabulary of the properties *)

(** The errors the refresh path is meant for: a 401 on a request that is not
    marked and does not go to an authentication endpoint. *)
Definition eligible (error : AxiosError) : bool :=
  is401 error
  && negb (_retry (config error))
  && negb (isAuthEndpoint (url (config error))).

(** At most one handler is suspended on a refresh call, and while one is,
    the flag is up. *)
Definition single_flight (s : System) : Prop :=
  (length (refreshing s) ≤ 1)%nat
  ∧ (refreshing s ≠ [] → isRefreshing (coordinator s) = true).

(** ** The rest of the module *)

(** Lines 16-22: the check made when the module loads.  It reports whether
    the operator is alerted; the module goes on loading either way. *)
Definition configurationAlert (API_URL : jsval) : bool :=
  negb (truthy API_URL).

(** [apiClient.get(u)] as it enters the pipeline: the instance defaults of
    lines 24-31 with the url and method of the call.  [inherited] stands for
    the headers the library puts on every request of its own accord. *)
Definition get (API_URL : jsval) (inherited : gmap string string)
    (u : string) : Config :=
  {| url := u; method := Some "get"; baseURL := API_URL;
     headers := <["Content-Type" := "application/json"]> inherited;
     data := ∅; _retry := false |}.

(** The request of [testAPIConnection] (line 184). *)
Definition testAPIConnection_request (API_URL : jsval)
    (inherited : gmap string string) : Config :=
  get API_URL inherited "/".

(** ** The transitions of the client, one rule per path of the source *)

(** The coordinator after a successful refresh: lines 153, 157 and 172. *)
Definition refreshed (access : jsval) (st : State) : State :=
  mkState false [] (setItem (localStorage st) "access_token" access)
          (window_location st).

(** The coordinator after a failed refresh: lines 164-169 and 172. *)
Definition loggedOut (st : State) : State :=
  mkState false []
          (removeItem (removeItem (localStorage st) "access_token")
                      "refresh_token")
          (window_location st ++ ["/login"]).

(** The replay of one queue entry resolved with [token] (lines 124-126). *)
Definition replayQueued (st : State) (token : jsval) (prom : Deferred) : Call :=
  ViaApiClient
    (apiClient st (set_header "Authorization" (bearer token)
                              (originalRequest prom))).

Inductive Transition (API_URL : jsval) (s : System)
  : Event → System → Prop :=
| T_pass error :
    eligible error = false →
    Transition API_URL s (ResponseError error) s
| T_queue error :
    eligible error = true →
    isRefreshing (coordinator s) = true →
    Transition API_URL s (ResponseError error)
      (mkSystem
         (set_failedQueue
            (failedQueue (coordinator s) ++ [mkDeferred (config error)])
            (coordinator s))
         (refreshing s) (wire s))
| T_start error :
    eligible error = true →
    isRefreshing (coordinator s) = false →
    truthy (getItem (localStorage (coordinator s)) "refresh_token") = true →
    Transition API_URL s (ResponseError error)
      (mkSystem
         (set_isRefreshing true (coordinator s))
         (refreshing s ++ [set_retry true (config error)])
         (wire s
          ++ [ViaAxios
                (refreshCall API_URL
                   (getItem (localStorage (coordinator s)) "refresh_token"))]))
| T_teardown error :
    eligible error = true →
    isRefreshing (coordinator s) = false →
    truthy (getItem (localStorage (coordinator s)) "refresh_token") = false →
    Transition API_URL s (ResponseError error)
      (mkSystem
         (navigate "/login" (clearTokens (set_isRefreshing true (coordinator s))))
         (refreshing s) (wire s))
| T_success i request access :
    refreshing s !! i = Some request →
    Transition API_URL s (RefreshSettles i (Fulfilled access))
      (mkSystem
         (refreshed access (coordinator s))
         (delete i (refreshing s))
         (wire s
          ++ ViaApiClient
               (apiClient (refreshed access (coordinator s))
                  (set_header "Authorization" (bearer access) request))
          :: map (replayQueued (refreshed access (coordinator s))
                               (default_null access))
                 (failedQueue (coordinator s))))
| T_failure i request refreshError :
    refreshing s !! i = Some request →
    Transition API_URL s (RefreshSettles i (Failed refreshError))
      (mkSystem (loggedOut (coordinator s)) (delete i (refreshing s)) (wire s)).

(** The refresh calls that settle in a list of events. *)
Fixpoint settles (evs : list Event) : nat :=
  match evs with
  | [] => 0
  | RefreshSettles _ _ :: evs => S (settles evs)
  | ResponseError _ :: evs => settles evs
  end.

(** The errors in a list of events that the refresh path accepts, in the
    order they arrive. *)
Fixpoint eligibleOf (evs : list Event) : list AxiosError :=
  match evs with
  | [] => []
  | ResponseError error :: evs =>
      if eligible error then error :: eligibleOf evs else eligibleOf evs
  | RefreshSettles _ _ :: evs => eligibleOf evs
  end.

(** A request the queue may hold: unmarked, not to an authentication URL. *)
Definition queueable (c : Config) : Prop :=
  _retry c = false ∧ isAuthEndpoint (url c) = false.

(** A request whose handler may be waiting on the refresh call. *)
Definition starter (c : Config) : Prop :=
  _retry c = true ∧ isAuthEndpoint (url c) = false.

(** What the interceptor puts on the wire: the refresh call with a non-empty
    token, or the replay of a request with its [Authorization] header. *)
Definition issued (API_URL : jsval) (c : Call) : Prop :=
  match c with
  | ViaAxios call =>
      ∃ refreshToken, refreshToken ≠ ""
                      ∧ call = refreshCall API_URL (JString refreshToken)
  | ViaApiClient request =>
      is_Some (headers request !! "Authorization")
      ∧ isAuthEndpoint (url request) = false
  end.

(** ** Sample data for the worked scenarios *)

Module Samples.

Definition api : jsval := JString "https://api.example.test/api".

Definition request (u : string) : Config :=
  {| url := u; method := Some "get"; baseURL := api;
     headers := {[ "Content-Type" := "application/json" ]};
     data := ∅; _retry := false |}.

(** The error axios raises for a response with the given status. *)
Definition failure (c : Config) (st : Z) : AxiosError :=
  {| config := c; response := Some (mkResponse st "");
     message := "Request failed"; code := Some "ERR_BAD_REQUEST" |}.

Definition networkError (c : Config) : AxiosError :=
  {| config := c; response := None;
     message := "Network Error"; code := Some "ERR_NETWORK" |}.

Definition loggedIn : Storage :=
  {[ "access_token" := "old"; "refresh_token" := "r1" ]}.

Definition accessOnly : Storage := {[ "access_token" := "old" ]}.

Definition idle (store : Storage) : State := mkState false [] store [].

Definition campaigns401 : AxiosError := failure (request "/campaigns/") 401.
Definition ads401 : AxiosError := failure (request "/ads/") 401.
Definition reports401 : AxiosError := failure (request "/reports/") 401.
Definition login401 : AxiosError := failure (request "/auth/login/") 401.

(** The refresh endpoint itself answering 401. *)
Definition refresh401 : AxiosError :=
  failure (refreshCall api (JString "r1")) 401.

(** Two requests fail, the refresh started for the first succeeds. *)
Definition firstRound : list Event :=
  [ResponseError campaigns401; ResponseError ads401;
   RefreshSettles 0 (Fulfilled (JString "new123"))].

(** One refresh call out, one request waiting on the queue. *)
Definition refreshPending : System :=
  mkSystem (mkState true [mkDeferred (request "/ads/")] loggedIn [])
           [set_retry true (request "/campaigns/")]
           [ViaAxios (refreshCall api (JString "r1"))].

(** The queued request as [apiClient] sent it again after that round. *)
Definition adsReplayed : Config :=
  set_header "Authorization" "Bearer new123" (request "/ads/").

(** The states some sample runs end in. *)
Definition outcome (store : Storage) (evs : list Event) : System :=
  match run api (boot store) evs with
  | Some s => s
  | None => boot store
  end.

Definition burst : list Event :=
  [ResponseError campaigns401; ResponseError ads401; ResponseError reports401].

Definition failedRound : list Event :=
  [ResponseError campaigns401; ResponseError ads401;
   RefreshSettles 0 (Failed refresh401)].

(** A store that holds something of the page's own beside the tokens. *)
Definition withTheme : Storage := <["theme" := "dark"]> loggedIn.

(** The flag left up by the branch of lines 137-143. *)
Definition stuck : System := outcome accessOnly [ResponseError campaigns401].

Definition serverError : AxiosError := failure (request "/campaigns/") 500.

(** What reaches the handler after the flag was left up, and the state it
    ends in. *)
Definition stuckEvents : list Event :=
  [ResponseError ads401; ResponseError serverError; ResponseError reports401].

Definition stuckLater : System :=
  mkSystem
    (mkState true
             [mkDeferred (request "/ads/"); mkDeferred (request "/reports/")]
             ∅ ["/login"])
    [] [].

End Samples.

(** * Properties *)

(** ** The request interceptor *)

Lemma set_header_lookup name value c :
  headers (set_header name value c) !! name = Some value.
Proof. simpl. apply lookup_insert_eq. Qed.

Lemma set_header_other name value c h :
  h ≠ name → headers (set_header name value c) !! h = headers c !! h.
Proof. intros Hne. simpl. by apply lookup_insert_ne. Qed.

Lemma set_header_twice name v w c :
  set_header name v (set_header name w c) = set_header name v c.
Proof. unfold set_header; simpl. f_equal. apply insert_insert_eq. Qed.

Lemma getItem_Some (s : Storage) key v :
  s !! key = Some v → getItem s key = JString v.
Proof. unfold getItem. by intros ->. Qed.

Lemma truthy_JString s : s ≠ "" → truthy (JString s) = true.
Proof.
  intros Hs. simpl. destruct (String.eqb_spec s ""); [contradiction | done].
Qed.

(** The interceptor touches nothing but the [Authorization] header. *)
Lemma requestInterceptor_frame (store : Storage) (c : Config) :
  url (requestInterceptor store c) = url c
  ∧ method (requestInterceptor store c) = method c
  ∧ baseURL (requestInterceptor store c) = baseURL c
  ∧ data (requestInterceptor store c) = data c
  ∧ _retry (requestInterceptor store c) = _retry c
  ∧ ∀ h, h ≠ "Authorization" →
         headers (requestInterceptor store c) !! h = headers c !! h.
Proof.
  unfold requestInterceptor.
  destruct (_ && _ && _); repeat split; try done.
  intros h Hh. by apply set_header_other.
Qed.

(** C8. With a non-empty access token in the store and a target that is
    neither a login nor a registration URL, the request interceptor sets
    [Authorization] to [Bearer <access>]; with no token (the key absent, or
    holding the empty string, which the test [token && ...] treats alike)
    the config is returned as it came, so no header is added; the
    interceptor is a total function, so nothing is raised; and in every case
    all fields other than the [Authorization] header keep their values. *)
Theorem requestInterceptor_attaches_bearer (store : Storage) (c : Config) :
  (∀ access : string,
      store !! "access_token" = Some access → access ≠ "" →
      includes "/auth/login" (url c) = false →
      includes "/auth/registration" (url c) = false →
      headers (requestInterceptor store c) !! "Authorization"
      = Some ("Bearer " +:+ access))
  ∧ (store !! "access_token" = None ∨ store !! "access_token" = Some "" →
     requestInterceptor store c = c)
  ∧ url (requestInterceptor store c) = url c
  ∧ method (requestInterceptor store c) = method c
  ∧ baseURL (requestInterceptor store c) = baseURL c
  ∧ data (requestInterceptor store c) = data c
  ∧ _retry (requestInterceptor store c) = _retry c
  ∧ (∀ h, h ≠ "Authorization" →
          headers (requestInterceptor store c) !! h = headers c !! h).
Proof.
  split; [| split; [| apply requestInterceptor_frame]].
  - intros access Hstore Hne Hlogin Hreg.
    unfold requestInterceptor.
    rewrite (getItem_Some _ _ _ Hstore), (truthy_JString _ Hne), Hlogin, Hreg.
    simpl. apply lookup_insert_eq.
  - intros Hnone. unfold requestInterceptor, getItem.
    by destruct Hnone as [-> | ->].
Qed.

(** C9. Running the request interceptor a second time on its own result,
    against the same store, changes nothing: the config, and so its header
    set, is the one the first run produced. *)
Theorem requestInterceptor_idempotent (store : Storage) (c : Config) :
  requestInterceptor store (requestInterceptor store c)
  = requestInterceptor store c.
Proof.
  unfold requestInterceptor.
  destruct (truthy (getItem store "access_token")
            && negb (includes "/auth/login" (url c))
            && negb (includes "/auth/registration" (url c))) eqn:Hcond.
  - change (url (set_header _ _ c)) with (url c). rewrite Hcond.
    apply set_header_twice.
  - by rewrite Hcond.
Qed.

(** ** Draining the queue *)

Lemma processQueue_spec error token st :
  processQueue error token st
  = (set_failedQueue [] st,
     map (fun prom => match error with
                      | Some e => Reject prom e
                      | None => Resolve prom (default_null token)
                      end) (failedQueue st)).
Proof. reflexivity. Qed.

(** A body without an [access] field resumes the queue with [null]. *)
Lemma processQueue_undefined_token st :
  (processQueue None JUndefined st).2
  = map (fun prom => Resolve prom JNull) (failedQueue st).
Proof. reflexivity. Qed.

(** A replay through the pipeline keeps a header that already carries the
    stored token. *)
Lemma apiClient_keeps_bearer st c access :
  localStorage st !! "access_token" = Some access →
  headers c !! "Authorization" = Some ("Bearer " +:+ access) →
  headers (apiClient st c) !! "Authorization" = Some ("Bearer " +:+ access).
Proof.
  intros Hstore Hhdr. unfold apiClient, requestInterceptor.
  rewrite (getItem_Some _ _ _ Hstore).
  destruct (_ && _ && _); [apply set_header_lookup | exact Hhdr].
Qed.

Lemma apiClient_url st c : url (apiClient st c) = url c.
Proof. apply requestInterceptor_frame. Qed.

Lemma apiClient_retry st c : _retry (apiClient st c) = _retry c.
Proof. apply requestInterceptor_frame. Qed.

(** C2. When the refresh call settles, [afterRefresh] hands out one
    settlement per queue entry, in queue order: on success each entry is
    resolved with the new access token, on failure each is rejected with the
    refresh error; the queue is empty afterwards. *)
Theorem queue_settled_once_in_order :
  (∀ st request access,
      (afterRefresh st request (Fulfilled (JString access))).1.2
      = map (fun prom => Resolve prom (JString access)) (failedQueue st)
      ∧ failedQueue (afterRefresh st request (Fulfilled (JString access))).1.1
        = [])
  ∧ (∀ st request refreshError,
      (afterRefresh st request (Failed refreshError)).1.2
      = map (fun prom => Reject prom refreshError) (failedQueue st)
      ∧ failedQueue (afterRefresh st request (Failed refreshError)).1.1 = []).
Proof. split; intros; split; reflexivity. Qed.

(** C5. When the refresh call returns the body [{ access: a }] (the
    scenario of the specification has [a = "new123"]), the store holds
    [access_token = a], every queue entry is resolved with [a], each queued
    request and the request that started the refresh are replayed through
    [apiClient] and leave it with [Authorization: Bearer a], and the flag
    [isRefreshing] is false with the queue empty. *)
Theorem refresh_success_replays_with_new_token
    (st : State) (request : Config) (a : string) :
  let r := afterRefresh st request (Fulfilled (JString a)) in
  localStorage r.1.1 !! "access_token" = Some a
  ∧ r.1.2 = map (fun prom => Resolve prom (JString a)) (failedQueue st)
  ∧ Forall (fun prom =>
              ∃ sent,
                replayed r.1.1 (resume (Resolve prom (JString a)))
                = [ViaApiClient sent]
                ∧ url sent = url (originalRequest prom)
                ∧ headers sent !! "Authorization" = Some ("Bearer " +:+ a))
           (failedQueue st)
  ∧ (∃ sent,
        replayed r.1.1 r.2 = [ViaApiClient sent]
        ∧ url sent = url request
        ∧ headers sent !! "Authorization" = Some ("Bearer " +:+ a))
  ∧ isRefreshing r.1.1 = false
  ∧ failedQueue r.1.1 = [].
Proof.
  intros r.
  assert (Hstore : localStorage r.1.1 !! "access_token" = Some a)
    by (simpl; apply lookup_insert_eq).
  split; [exact Hstore |]. split; [reflexivity |].
  split; [| split; [| split; reflexivity]].
  - apply Forall_forall. intros prom _. eexists. split; [reflexivity |].
    split; [by rewrite apiClient_url |].
    apply apiClient_keeps_bearer; [exact Hstore | apply set_header_lookup].
  - eexists. split; [reflexivity |].
    split; [by rewrite apiClient_url |].
    apply apiClient_keeps_bearer; [exact Hstore | apply set_header_lookup].
Qed.

(** C6. When the refresh call fails with [refreshError], every queue entry
    is rejected with that error, both tokens are gone from the store,
    [window.location.href] is assigned ["/login"] once, the request that
    started the refresh is rejected with [refreshError] (nothing is
    replayed), and [isRefreshing] is false with the queue empty. *)
Theorem refresh_failure_rejects_all
    (st : State) (request : Config) (refreshError : AxiosError) :
  let r := afterRefresh st request (Failed refreshError) in
  r.1.2 = map (fun prom => Reject prom refreshError) (failedQueue st)
  ∧ Forall (fun s => resume s = Throws refreshError) r.1.2
  ∧ localStorage r.1.1 !! "access_token" = None
  ∧ localStorage r.1.1 !! "refresh_token" = None
  ∧ window_location r.1.1 = (window_location st ++ ["/login"])%list
  ∧ r.2 = Throws refreshError
  ∧ isRefreshing r.1.1 = false
  ∧ failedQueue r.1.1 = [].
Proof.
  intros r. split; [reflexivity |]. split.
  { apply Forall_forall. intros s Hs. subst r. simpl in Hs.
    apply list_elem_of_fmap in Hs as (prom & -> & _). reflexivity. }
  split.
  { simpl. unfold removeItem. rewrite lookup_delete_ne by done.
    apply lookup_delete_eq. }
  split; [simpl; apply lookup_delete_eq |].
  repeat split; reflexivity.
Qed.

(** ** The error handler, case by case *)

Section Interceptor.

Variable API_URL : jsval.

Lemma eligible_inv error :
  eligible error = true →
  is401 error = true ∧ _retry (config error) = false
  ∧ isAuthEndpoint (url (config error)) = false.
Proof.
  unfold eligible. intros H.
  apply andb_true_iff in H as [H Hauth].
  apply andb_true_iff in H as [H401 Hretry].
  apply negb_true_iff in Hretry, Hauth. done.
Qed.

Lemma onRejected_passthrough st error :
  is401 error && negb (_retry (config error)) = false →
  onRejected API_URL st error = (st, Rejects error).
Proof. unfold onRejected. by intros ->. Qed.

Lemma onRejected_auth st error :
  isAuthEndpoint (url (config error)) = true →
  onRejected API_URL st error = (st, Rejects error).
Proof.
  intros Hauth. unfold onRejected. rewrite Hauth.
  by destruct (is401 error && negb (_retry (config error))).
Qed.

Lemma onRejected_queue st error :
  eligible error = true → isRefreshing st = true →
  onRejected API_URL st error
  = (set_failedQueue (failedQueue st ++ [mkDeferred (config error)]) st,
     Suspended (mkDeferred (config error))).
Proof.
  intros (H401 & Hretry & Hauth)%eligible_inv Hflag.
  unfold onRejected. by rewrite H401, Hretry, Hauth, Hflag.
Qed.

Lemma onRejected_start st error :
  eligible error = true → isRefreshing st = false →
  truthy (getItem (localStorage st) "refresh_token") = true →
  onRejected API_URL st error
  = (set_isRefreshing true st,
     Awaits (set_retry true (config error))
            (refreshCall API_URL (getItem (localStorage st) "refresh_token"))).
Proof.
  intros (H401 & Hretry & Hauth)%eligible_inv Hflag Htok.
  unfold onRejected. rewrite H401, Hretry, Hauth, Hflag. simpl.
  by rewrite Htok.
Qed.

Lemma onRejected_no_refresh_token st error :
  eligible error = true → isRefreshing st = false →
  truthy (getItem (localStorage st) "refresh_token") = false →
  onRejected API_URL st error
  = (navigate "/login" (clearTokens (set_isRefreshing true st)),
     Rejects (with_config (set_retry true (config error)) error)).
Proof.
  intros (H401 & Hretry & Hauth)%eligible_inv Hflag Htok.
  unfold onRejected. rewrite H401, Hretry, Hauth, Hflag. simpl.
  by rewrite Htok.
Qed.

(** The handler suspends on the refresh call in one case only. *)
Lemma onRejected_Awaits_inv st error st' request call :
  onRejected API_URL st error = (st', Awaits request call) →
  eligible error = true ∧ isRefreshing st = false
  ∧ truthy (getItem (localStorage st) "refresh_token") = true
  ∧ st' = set_isRefreshing true st
  ∧ request = set_retry true (config error)
  ∧ call = refreshCall API_URL (getItem (localStorage st) "refresh_token").
Proof.
  unfold onRejected, eligible.
  destruct (is401 error); simpl; [| discriminate].
  destruct (_retry (config error)); simpl; [discriminate |].
  destruct (isAuthEndpoint (url (config error))); simpl; [discriminate |].
  destruct (isRefreshing st); [discriminate |].
  destruct (truthy (getItem (localStorage st) "refresh_token"));
    simpl; [| discriminate].
  intros [= <- <- <-]. done.
Qed.

(** It parks a request on the queue in one case only. *)
Lemma onRejected_Suspended_inv st error st' prom :
  onRejected API_URL st error = (st', Suspended prom) →
  eligible error = true ∧ isRefreshing st = true
  ∧ prom = mkDeferred (config error)
  ∧ st' = set_failedQueue (failedQueue st ++ [prom]) st.
Proof.
  unfold onRejected, eligible.
  destruct (is401 error); simpl; [| discriminate].
  destruct (_retry (config error)); simpl; [discriminate |].
  destruct (isAuthEndpoint (url (config error))); simpl; [discriminate |].
  destruct (isRefreshing st); [| by destruct (negb _)].
  intros [= <- <-]. done.
Qed.

(** The flag never drops while an error is handled. *)
Lemma onRejected_flag_monotone st error :
  isRefreshing st = true →
  isRefreshing (onRejected API_URL st error).1 = true.
Proof.
  intros Hflag. unfold onRejected.
  destruct (is401 error && negb (_retry (config error))); [| done].
  destruct (isAuthEndpoint (url (config error))); [done |].
  by rewrite Hflag.
Qed.

End Interceptor.

(** ** The coordinator over whole runs *)

Section Coordinator.

Variable API_URL : jsval.

Lemma step_error_cases s error s' :
  step API_URL s (ResponseError error) = Some s' →
  let r := onRejected API_URL (coordinator s) error in
  coordinator s' = r.1
  ∧ match r.2 with
    | Awaits request call =>
        refreshing s' = (refreshing s ++ [request])%list
        ∧ wire s' = (wire s ++ [ViaAxios call])%list
    | _ => refreshing s' = refreshing s ∧ wire s' = wire s
    end.
Proof.
  simpl. destruct (onRejected API_URL (coordinator s) error) as [st o].
  intros [= <-]. by destruct o.
Qed.

Lemma rejected_replay_nothing st err (q : list Deferred) :
  concat (map (fun x => replayed st (resume x))
              (map (fun prom => Reject prom err) q)) = [].
Proof. induction q as [| prom q IH]; [done | exact IH]. Qed.

Lemma step_single_flight s ev s' :
  single_flight s → step API_URL s ev = Some s' → single_flight s'.
Proof.
  intros [Hlen Hflag] Hstep. unfold single_flight.
  destruct ev as [error | i r].
  - apply step_error_cases in Hstep as [Hst Hrest].
    destruct (onRejected API_URL (coordinator s) error) as [st o] eqn:Hon.
    simpl in Hst, Hrest.
    assert (Hmono : isRefreshing (coordinator s) = true →
                    isRefreshing (coordinator s') = true).
    { intros Hup. rewrite Hst.
      change st with (st, o).1. rewrite <- Hon.
      by apply onRejected_flag_monotone. }
    destruct o as [e | prom | request call].
    + destruct Hrest as [-> _]. split; [done | auto].
    + destruct Hrest as [-> _]. split; [done | auto].
    + destruct Hrest as [Hrefr _].
      apply onRejected_Awaits_inv in Hon as (_ & Hidle & _ & -> & _).
      assert (Hnone : refreshing s = []).
      { destruct (refreshing s) as [| c l] eqn:E; [done |].
        rewrite Hflag in Hidle; [discriminate | done]. }
      rewrite Hrefr, Hnone, Hst. split; [simpl; lia | done].
  - simpl in Hstep.
    destruct (refreshing s !! i) as [request |] eqn:Hi; [| discriminate].
    destruct (afterRefresh (coordinator s) request r) as [[st settled] c].
    injection Hstep as <-. simpl.
    assert (Hdel : length (delete i (refreshing s)) = 0).
    { rewrite length_delete by eauto. lia. }
    split; [lia |].
    intros Hne. destruct (delete i (refreshing s)); [done | discriminate].
Qed.

Lemma run_single_flight evs : ∀ s s',
  single_flight s → run API_URL s evs = Some s' → single_flight s'.
Proof.
  induction evs as [| ev evs IH]; intros s s' Hinv Hrun; simpl in Hrun.
  - by injection Hrun as <-.
  - destruct (step API_URL s ev) as [s1 |] eqn:Hstep; [| discriminate].
    eapply IH; [| exact Hrun]. eapply step_single_flight; eauto.
Qed.

Lemma boot_single_flight store : single_flight (boot store).
Proof. split; simpl; [lia | done]. Qed.

(** Errors that arrive while the flag is up and are [eligible] only grow
    the queue. *)
Lemma run_queue_burst errors : ∀ s,
  isRefreshing (coordinator s) = true →
  Forall (fun e => eligible e = true) errors →
  ∃ s', run API_URL s (map ResponseError errors) = Some s'
        ∧ isRefreshing (coordinator s') = true
        ∧ localStorage (coordinator s') = localStorage (coordinator s)
        ∧ refreshing s' = refreshing s
        ∧ wire s' = wire s
        ∧ failedQueue (coordinator s')
          = (failedQueue (coordinator s)
             ++ map (fun e => mkDeferred (config e)) errors)%list.
Proof.
  induction errors as [| e errors IH]; intros s Hflag Hall.
  - exists s. simpl. by rewrite app_nil_r.
  - apply Forall_cons in Hall as [He Hall].
    simpl. rewrite (onRejected_queue API_URL _ _ He Hflag).
    destruct (IH (mkSystem
                    (set_failedQueue
                       (failedQueue (coordinator s) ++ [mkDeferred (config e)])
                       (coordinator s))
                    (refreshing s) (wire s)) Hflag Hall)
      as (s' & Hrun & Hf & Hls & Hr & Hw & Hq).
    exists s'. split; [exact Hrun |]. simpl in *.
    by rewrite Hq, <- app_assoc.
Qed.

(** C7. An error on a request to a login, registration or google-auth
    URL is handed back as it came, whatever its status: the state is
    unchanged (nothing queued, flag untouched) and no call is issued. *)
Theorem auth_endpoint_bypasses_refresh (st : State) (error : AxiosError) :
  includes "/auth/login" (url (config error)) = true
  ∨ includes "/auth/registration" (url (config error)) = true
  ∨ includes "/auth/google" (url (config error)) = true →
  onRejected API_URL st error = (st, Rejects error)
  ∧ ∀ s, step API_URL s (ResponseError error) = Some s.
Proof.
  intros Hurl.
  assert (Hauth : isAuthEndpoint (url (config error)) = true).
  { unfold isAuthEndpoint.
    destruct Hurl as [-> | [-> | ->]];
      rewrite ?orb_true_r, ?orb_true_l; reflexivity. }
  split; [by apply onRejected_auth |].
  intros [st0 rs w]. simpl. by rewrite onRejected_auth.
Qed.

(** The branch of lines 137-143, in general: the teardown happens and the
    flag set on line 133 is still up when the handler returns. *)
Lemma missing_refresh_token_teardown st error :
  eligible error = true → isRefreshing st = false →
  truthy (getItem (localStorage st) "refresh_token") = false →
  let r := onRejected API_URL st error in
  localStorage r.1 !! "access_token" = None
  ∧ localStorage r.1 !! "refresh_token" = None
  ∧ window_location r.1 = (window_location st ++ ["/login"])%list
  ∧ r.2 = Rejects (with_config (set_retry true (config error)) error)
  ∧ failedQueue r.1 = failedQueue st
  ∧ isRefreshing r.1 = true.
Proof.
  intros He Hidle Htok r. subst r.
  rewrite (onRejected_no_refresh_token _ _ _ He Hidle Htok). simpl.
  split; [| split; [apply lookup_delete_eq | done]].
  unfold removeItem. rewrite lookup_delete_ne by done.
  apply lookup_delete_eq.
Qed.

(** C10. The refresh call is built by [axios.post] on the bare library:
    it has no [Authorization] header whatever the store holds, it is
    logged as a bare call and the queue is not touched when it is issued;
    and when it fails, with a 401 or anything else, the handler issues no
    further call, drops the flag and leaves the queue empty. *)
Theorem refresh_call_bypasses_interceptors :
  (∀ st error st' request call,
      onRejected API_URL st error = (st', Awaits request call) →
      call = axios_post (to_string API_URL +:+ "/auth/token/refresh/")
               {[ "refresh" :=
                    to_string (getItem (localStorage st) "refresh_token") ]}
      ∧ headers call !! "Authorization" = None
      ∧ failedQueue st' = failedQueue st)
  ∧ (∀ s error s',
      step API_URL s (ResponseError error) = Some s' →
      wire s' = wire s
      ∨ ∃ call, wire s' = (wire s ++ [ViaAxios call])%list
                ∧ headers call = ∅)
  ∧ (∀ s i refreshError s',
      step API_URL s (RefreshSettles i (Failed refreshError)) = Some s' →
      wire s' = wire s
      ∧ refreshing s' = delete i (refreshing s)
      ∧ isRefreshing (coordinator s') = false
      ∧ failedQueue (coordinator s') = []).
Proof.
  split; [| split].
  - intros st error st' request call Hon.
    apply onRejected_Awaits_inv in Hon as (_ & _ & _ & -> & _ & ->).
    done.
  - intros s error s' Hstep.
    apply step_error_cases in Hstep as [_ Hrest].
    destruct (onRejected API_URL (coordinator s) error) as [st o] eqn:Hon.
    simpl in Hrest. destruct o as [e | prom | request call];
      try (left; apply Hrest).
    right. exists call. split; [apply Hrest |].
    by apply onRejected_Awaits_inv in Hon as (_ & _ & _ & _ & _ & ->).
  - intros s i refreshError s' Hstep. simpl in Hstep.
    destruct (refreshing s !! i) as [request |]; [| discriminate].
    injection Hstep as <-. simpl.
    by rewrite rejected_replay_nothing, app_nil_r.
Qed.

(** C1, as the code has it.  In every state the client can reach, at
    most one handler is waiting on a refresh call.  And when a burst of
    errors, each a 401 on an unmarked request to a non-authentication URL,
    arrives while the flag is down and a non-empty refresh token is
    stored, with no refresh settling in between, the first error issues the
    one refresh call of the burst and every later one is appended to the
    queue, in arrival order, without any call.  When such a burst arrives
    with no refresh token stored (the key absent or empty), no refresh call
    is issued at all: nothing is put on the wire and no handler waits. *)
Theorem one_refresh_per_burst :
  (∀ s, reachable API_URL s → single_flight s)
  ∧ (∀ s error errors,
      isRefreshing (coordinator s) = false →
      truthy (getItem (localStorage (coordinator s)) "refresh_token") = true →
      Forall (fun e => eligible e = true) (error :: errors) →
      ∃ s',
        run API_URL s (map ResponseError (error :: errors)) = Some s'
        ∧ wire s'
          = (wire s
             ++ [ViaAxios
                   (refreshCall API_URL
                      (getItem (localStorage (coordinator s))
                               "refresh_token"))])%list
        ∧ refreshing s'
          = (refreshing s ++ [set_retry true (config error)])%list
        ∧ failedQueue (coordinator s')
          = (failedQueue (coordinator s)
             ++ map (fun e => mkDeferred (config e)) errors)%list
        ∧ isRefreshing (coordinator s') = true)
  ∧ (∀ s error errors,
      isRefreshing (coordinator s) = false →
      truthy (getItem (localStorage (coordinator s)) "refresh_token") = false →
      Forall (fun e => eligible e = true) (error :: errors) →
      ∃ s',
        run API_URL s (map ResponseError (error :: errors)) = Some s'
        ∧ wire s' = wire s
        ∧ bareCalls (wire s') = bareCalls (wire s)
        ∧ refreshing s' = refreshing s).
Proof.
  split; [| split].
  - intros s (store & evs & Hrun).
    eapply run_single_flight; [apply boot_single_flight | exact Hrun].
  - intros s error errors Hidle Htok Hall.
    apply Forall_cons in Hall as [He Hall].
    change (map ResponseError (error :: errors))
      with (ResponseError error :: map ResponseError errors).
    cbn [run step]. rewrite (onRejected_start API_URL _ _ He Hidle Htok).
    set (s1 := mkSystem _ _ _).
    destruct (run_queue_burst errors s1 eq_refl Hall)
      as (s' & Hrun & Hf & _ & Hr & Hw & Hq).
    exists s'. split; [exact Hrun |].
    rewrite Hw, Hr, Hq. done.
  - intros s error errors Hidle Htok Hall.
    apply Forall_cons in Hall as [He Hall].
    change (map ResponseError (error :: errors))
      with (ResponseError error :: map ResponseError errors).
    cbn [run step].
    rewrite (onRejected_no_refresh_token API_URL _ _ He Hidle Htok).
    set (s1 := mkSystem _ _ _).
    destruct (run_queue_burst errors s1 eq_refl Hall)
      as (s' & Hrun & _ & _ & Hr & Hw & _).
    exists s'. split; [exact Hrun |].
    rewrite Hw, Hr. done.
Qed.

(** C3, as the code has it.  A marked request that fails again is handed
    its error at once: nothing is queued, no refresh starts, the state is
    unchanged.  The marker is put on the request that starts a refresh and
    survives its replay.  A request parked on the queue is not marked, and
    is replayed unmarked: a 401 on the replay is again an error the
    refresh path accepts. *)
Theorem retry_marker_guards_the_starter :
  (∀ st error,
      _retry (config error) = true →
      onRejected API_URL st error = (st, Rejects error)
      ∧ ∀ s, step API_URL s (ResponseError error) = Some s)
  ∧ (∀ st error st' request call,
      onRejected API_URL st error = (st', Awaits request call) →
      _retry request = true
      ∧ ∀ st1 access,
          ∃ sent,
            replayed (afterRefresh st1 request (Fulfilled access)).1.1
                     (afterRefresh st1 request (Fulfilled access)).2
            = [ViaApiClient sent]
            ∧ _retry sent = true)
  ∧ (∀ st error st' prom,
      onRejected API_URL st error = (st', Suspended prom) →
      _retry (originalRequest prom) = false
      ∧ ∀ st1 token,
          ∃ sent,
            replayed st1 (resume (Resolve prom token)) = [ViaApiClient sent]
            ∧ _retry sent = false
            ∧ ∀ error', config error' = sent → is401 error' = true →
                        eligible error' = true).
Proof.
  split; [| split].
  - intros st error Hmarked.
    assert (Hpass : is401 error && negb (_retry (config error)) = false)
      by (rewrite Hmarked; apply andb_false_r).
    split; [by apply onRejected_passthrough |].
    intros [st0 rs w]. simpl. by rewrite onRejected_passthrough.
  - intros st error st' request call Hon.
    apply onRejected_Awaits_inv in Hon as (_ & _ & _ & _ & -> & _).
    split; [done |]. intros st1 access. eexists. split; [reflexivity |].
    by rewrite apiClient_retry.
  - intros st error st' prom Hon.
    apply onRejected_Suspended_inv in Hon as (He & _ & -> & _).
    apply eligible_inv in He as (_ & Hretry & Hauth).
    split; [exact Hretry |]. intros st1 token. eexists.
    split; [reflexivity |]. split; [by rewrite apiClient_retry |].
    intros error' Hsent H401. unfold eligible.
    rewrite H401, Hsent, apiClient_retry, apiClient_url. simpl.
    by rewrite Hretry, Hauth.
Qed.

End Coordinator.

(** ** The properties at work on sample runs *)

Section Scenarios.

Import Samples.

Lemma requestInterceptor_attaches_bearer_witness :
  headers (requestInterceptor loggedIn (request "/campaigns/"))
    !! "Authorization" = Some "Bearer old"
  ∧ requestInterceptor ∅ (request "/campaigns/") = request "/campaigns/".
Proof.
  destruct (requestInterceptor_attaches_bearer loggedIn (request "/campaigns/"))
    as [Hset _].
  destruct (requestInterceptor_attaches_bearer ∅ (request "/campaigns/"))
    as (_ & Hnone & _).
  split.
  - apply (Hset "old"); [reflexivity | discriminate | reflexivity ..].
  - apply Hnone. left. reflexivity.
Defined.

Lemma auth_endpoint_bypasses_refresh_witness :
  onRejected api (mkState true [] loggedIn []) login401
  = (mkState true [] loggedIn [], Rejects login401)
  ∧ step api (boot loggedIn) (ResponseError login401) = Some (boot loggedIn).
Proof.
  destruct (auth_endpoint_bypasses_refresh api
              (mkState true [] loggedIn []) login401) as [Hret Hstep].
  - left. reflexivity.
  - split; [exact Hret | apply Hstep].
Defined.

(** C4, at a failing input: a 401 on [/campaigns/] with the flag down and
    only an access token stored.  The tokens are removed, ["/login"] is
    assigned, the error is handed back and nothing goes out on the wire,
    as the claim says; but the handler returns on line 142, before the
    [try ... finally] that resets the flag, so [isRefreshing] stays true,
    and the next such error is parked on a queue nobody drains. *)
Theorem missing_refresh_token_leaves_flag_up :
  let r := onRejected api (idle accessOnly) campaigns401 in
  eligible campaigns401 = true
  ∧ localStorage r.1 = ∅
  ∧ window_location r.1 = ["/login"]
  ∧ r.2 = Rejects (with_config (set_retry true (config campaigns401))
                               campaigns401)
  ∧ wire <$> step api (boot accessOnly) (ResponseError campaigns401)
    = Some []
  ∧ isRefreshing r.1 = true
  ∧ onRejected api r.1 ads401
    = (set_failedQueue [mkDeferred (request "/ads/")] r.1,
       Suspended (mkDeferred (request "/ads/"))).
Proof. repeat split; reflexivity. Qed.

(** C1 fails as stated: with no refresh token stored, two requests that
    receive a 401 while the flag is down cause no refresh call at all. *)
Lemma burst_without_refresh_token_issues_no_call :
  eligible campaigns401 = true ∧ eligible ads401 = true
  ∧ isRefreshing (coordinator (boot accessOnly)) = false
  ∧ (fun s => length (bareCalls (wire s)))
      <$> run api (boot accessOnly)
            [ResponseError campaigns401; ResponseError ads401]
    = Some 0
  ∧ (fun s => length (bareCalls (wire s)))
      <$> run api (boot accessOnly) [ResponseError campaigns401]
    = Some 0.
Proof. repeat split; reflexivity. Qed.

Lemma one_refresh_per_burst_witness :
  single_flight
    match run api (boot loggedIn) firstRound with
    | Some s => s
    | None => boot loggedIn
    end
  ∧ (∃ s',
      run api (boot loggedIn)
          (map ResponseError [campaigns401; ads401; reports401]) = Some s'
      ∧ wire s' = [ViaAxios (refreshCall api (JString "r1"))]
      ∧ refreshing s' = [set_retry true (request "/campaigns/")]
      ∧ failedQueue (coordinator s')
        = [mkDeferred (request "/ads/"); mkDeferred (request "/reports/")]
      ∧ isRefreshing (coordinator s') = true)
  ∧ ∃ s',
      run api (boot accessOnly)
          (map ResponseError [campaigns401; ads401; reports401]) = Some s'
      ∧ wire s' = []
      ∧ bareCalls (wire s') = []
      ∧ refreshing s' = [].
Proof.
  destruct (one_refresh_per_burst api) as (Hinv & Hburst & Hnone).
  split; [| split].
  - apply Hinv. exists loggedIn, firstRound. reflexivity.
  - apply (Hburst (boot loggedIn) campaigns401 [ads401; reports401]);
      [reflexivity | reflexivity | repeat constructor].
  - apply (Hnone (boot accessOnly) campaigns401 [ads401; reports401]);
      [reflexivity | reflexivity | repeat constructor].
Defined.

(** C3 fails as stated.  [/ads/] fails with 401 during a refresh and is
    queued; the refresh succeeds and the request is replayed, unmarked;
    when the replay fails with 401 the handler does not hand the error
    back: it takes the request through the refresh path a second time and
    issues a new refresh call for it. *)
Lemma replayed_queued_request_refreshes_again :
  (onRejected api (set_isRefreshing true (idle loggedIn)) ads401).2
  = Suspended (mkDeferred (request "/ads/"))
  ∧ wire <$> run api (boot loggedIn) firstRound
    = Some [ViaAxios (refreshCall api (JString "r1"));
            ViaApiClient
              (set_header "Authorization" "Bearer new123"
                          (set_retry true (request "/campaigns/")));
            ViaApiClient adsReplayed]
  ∧ _retry adsReplayed = false
  ∧ (fun s => (onRejected api (coordinator s) (failure adsReplayed 401)).2)
      <$> run api (boot loggedIn) firstRound
    = Some (Awaits (set_retry true adsReplayed)
                   (refreshCall api (JString "r1")))
  ∧ (fun s => bareCalls (wire s))
      <$> run api (boot loggedIn)
            (firstRound ++ [ResponseError (failure adsReplayed 401)])
    = Some [refreshCall api (JString "r1"); refreshCall api (JString "r1")].
Proof. repeat split; reflexivity. Qed.

Lemma retry_marker_guards_the_starter_witness :
  onRejected api (idle loggedIn)
             (failure (set_retry true (request "/campaigns/")) 401)
  = (idle loggedIn,
     Rejects (failure (set_retry true (request "/campaigns/")) 401))
  ∧ _retry (set_retry true (request "/campaigns/")) = true
  ∧ _retry (originalRequest (mkDeferred (request "/ads/"))) = false.
Proof.
  destruct (retry_marker_guards_the_starter api)
    as (Hmarked & Hstart & Hqueued).
  split; [| split].
  - apply Hmarked. reflexivity.
  - eapply (Hstart (idle loggedIn) campaigns401). reflexivity.
  - eapply (Hqueued (set_isRefreshing true (idle loggedIn)) ads401).
    reflexivity.
Defined.

Lemma refresh_call_bypasses_interceptors_witness :
  headers (refreshCall api (JString "r1")) !! "Authorization" = None
  ∧ wire <$> step api refreshPending (RefreshSettles 0 (Failed refresh401))
    = Some [ViaAxios (refreshCall api (JString "r1"))]
  ∧ (fun s => isRefreshing (coordinator s))
      <$> step api refreshPending (RefreshSettles 0 (Failed refresh401))
    = Some false.
Proof.
  destruct (refresh_call_bypasses_interceptors api) as (Hcall & _ & Hfail).
  split.
  - eapply (Hcall (idle loggedIn) campaigns401). reflexivity.
  - destruct (step api refreshPending (RefreshSettles 0 (Failed refresh401)))
      as [s' |] eqn:Hstep; [| discriminate Hstep].
    apply Hfail in Hstep as (Hw & _ & Hflag & _). simpl.
    by rewrite Hw, Hflag.
Defined.

(** The scenario of the specification: [{ access: "new123" }]. *)
Example refresh_new123 :
  let r := afterRefresh (mkState true [mkDeferred (request "/ads/")]
                                 loggedIn [])
                        (set_retry true (request "/campaigns/"))
                        (Fulfilled (JString "new123")) in
  localStorage r.1.1 !! "access_token" = Some "new123"
  ∧ r.1.2 = [Resolve (mkDeferred (request "/ads/")) (JString "new123")]
  ∧ replayed r.1.1 (resume (Resolve (mkDeferred (request "/ads/"))
                                    (JString "new123")))
    = [ViaApiClient adsReplayed]
  ∧ isRefreshing r.1.1 = false.
Proof. repeat split; reflexivity. Qed.

(** Had the refresh call gone through [apiClient], the request
    interceptor would have put the stale token on it. *)
Example refresh_through_apiClient_would_carry_token :
  headers (apiClient (idle loggedIn) (refreshCall api (JString "r1")))
    !! "Authorization" = Some "Bearer old".
Proof. reflexivity. Qed.

(** Once a refresh has settled the flag is down again, so a 401 that comes
    in later starts a refresh of its own: calls follow one another, they
    never overlap. *)
Example late_failure_starts_second_refresh :
  (fun s => (length (bareCalls (wire s)), length (refreshing s)))
    <$> run api (boot loggedIn) (firstRound ++ [ResponseError reports401])
  = Some (2, 1).
Proof. reflexivity. Qed.

End Scenarios.

(** * The client as a transition system *)

Section Transitions.

Variable API_URL : jsval.

Lemma onRejected_ineligible st error :
  eligible error = false →
  onRejected API_URL st error = (st, Rejects error).
Proof.
  unfold eligible. intros H.
  destruct (isAuthEndpoint (url (config error))) eqn:Hauth.
  - by apply onRejected_auth.
  - apply onRejected_passthrough.
    by rewrite andb_true_r in H.
Qed.

Lemma resolved_replays st token (q : list Deferred) :
  concat (map (fun x => replayed st (resume x))
              (map (fun prom => Resolve prom token) q))
  = map (replayQueued st token) q.
Proof.
  induction q as [| prom q IH]; [done |]. simpl. by rewrite <- IH.
Qed.

(** The rules describe what [step] computes, and nothing else. *)
Lemma step_sound s ev s' :
  step API_URL s ev = Some s' → Transition API_URL s ev s'.
Proof.
  destruct ev as [error | i r]; simpl.
  - destruct (eligible error) eqn:He.
    + destruct (isRefreshing (coordinator s)) eqn:Hflag.
      * rewrite (onRejected_queue API_URL _ _ He Hflag).
        intros [= <-]. by constructor.
      * destruct (truthy (getItem (localStorage (coordinator s))
                                  "refresh_token")) eqn:Htok.
        -- rewrite (onRejected_start API_URL _ _ He Hflag Htok).
           intros [= <-]. by constructor.
        -- rewrite (onRejected_no_refresh_token API_URL _ _ He Hflag Htok).
           intros [= <-]. by constructor.
    + rewrite (onRejected_ineligible _ _ He). destruct s.
      intros [= <-]. by constructor.
  - destruct (refreshing s !! i) as [request |] eqn:Hi; [| discriminate].
    destruct r as [access | refreshError]; simpl.
    + rewrite resolved_replays. intros [= <-]. by econstructor.
    + rewrite rejected_replay_nothing, app_nil_r. intros [= <-].
      by econstructor.
Qed.

Lemma step_complete s ev s' :
  Transition API_URL s ev s' → step API_URL s ev = Some s'.
Proof.
  intros [error He | error He Hflag | error He Hflag Htok
          | error He Hflag Htok | i request access Hi
          | i request refreshError Hi]; simpl.
  - rewrite (onRejected_ineligible _ _ He). by destruct s.
  - by rewrite (onRejected_queue API_URL _ _ He Hflag).
  - by rewrite (onRejected_start API_URL _ _ He Hflag Htok).
  - by rewrite (onRejected_no_refresh_token API_URL _ _ He Hflag Htok).
  - rewrite Hi. simpl. by rewrite resolved_replays.
  - rewrite Hi. simpl. by rewrite rejected_replay_nothing, app_nil_r.
Qed.

(** Induction over a run, one transition at a time. *)
Lemma run_invariant (P : System → Prop) :
  (∀ s ev s', P s → Transition API_URL s ev s' → P s') →
  ∀ evs s s', P s → run API_URL s evs = Some s' → P s'.
Proof.
  intros Hstep evs.
  induction evs as [| ev evs IH]; intros s s' HP Hrun; simpl in Hrun.
  - by injection Hrun as <-.
  - destruct (step API_URL s ev) as [s1 |] eqn:Hs; [| discriminate].
    apply (IH s1); [| exact Hrun].
    eapply Hstep; [exact HP | by apply step_sound].
Qed.

Lemma reachable_invariant (P : System → Prop) :
  (∀ store, P (boot store)) →
  (∀ s ev s', P s → Transition API_URL s ev s' → P s') →
  ∀ s, reachable API_URL s → P s.
Proof.
  intros Hboot Hstep s (store & evs & Hrun).
  eapply run_invariant; [exact Hstep | apply Hboot | exact Hrun].
Qed.

End Transitions.

(** * What every reachable state satisfies *)

Section Invariants.

Variable API_URL : jsval.

Lemma eligible_queueable error :
  eligible error = true → queueable (config error).
Proof. intros (_ & Hretry & Hauth)%eligible_inv. by split. Qed.

Lemma eligible_starter error :
  eligible error = true → starter (set_retry true (config error)).
Proof. intros (_ & _ & Hauth)%eligible_inv. by split. Qed.

Lemma truthy_getItem (store : Storage) key :
  truthy (getItem store key) = true →
  ∃ v, store !! key = Some v ∧ v ≠ "" ∧ getItem store key = JString v.
Proof.
  unfold getItem. destruct (store !! key) as [v |]; [| discriminate].
  simpl. intros Hv. exists v. repeat split.
  intros ->. discriminate.
Qed.

Lemma apiClient_keeps_authorization st c :
  is_Some (headers c !! "Authorization") →
  is_Some (headers (apiClient st c) !! "Authorization").
Proof.
  intros Hc. unfold apiClient, requestInterceptor.
  destruct (_ && _ && _); [| exact Hc].
  rewrite set_header_lookup. eauto.
Qed.

Lemma replay_issued st value c :
  isAuthEndpoint (url c) = false →
  issued API_URL (ViaApiClient (apiClient st (set_header "Authorization" value c))).
Proof.
  intros Hauth. split.
  - apply apiClient_keeps_authorization. rewrite set_header_lookup. eauto.
  - by rewrite apiClient_url.
Qed.

(** X2.  The queue is empty whenever the flag is down: requests are parked only
    while a refresh is marked as running, and the handler that lowers the
    flag has emptied the queue just before. *)
Theorem idle_queue_is_empty s :
  reachable API_URL s →
  isRefreshing (coordinator s) = false →
  failedQueue (coordinator s) = [].
Proof.
  revert s.
  apply (reachable_invariant API_URL
           (fun s => isRefreshing (coordinator s) = false →
                     failedQueue (coordinator s) = [])); [done |].
  intros s ev s' IH Hstep.
  destruct Hstep; simpl; intros; first [done | congruence | auto].
Qed.

(** X3.  Every request on the queue is unmarked and every request whose handler
    waits for the refresh call is marked; neither goes to an authentication
    URL. *)
Theorem queue_holds_unmarked_requests s :
  reachable API_URL s →
  Forall (fun prom => queueable (originalRequest prom))
         (failedQueue (coordinator s))
  ∧ Forall starter (refreshing s).
Proof.
  revert s.
  apply (reachable_invariant API_URL
           (fun s => Forall (fun prom => queueable (originalRequest prom))
                            (failedQueue (coordinator s))
                     ∧ Forall starter (refreshing s))).
  { intros store. split; constructor. }
  intros s ev s' [Hq Hr] Hstep. destruct Hstep; simpl.
  - done.
  - split; [| done]. apply Forall_app. split; [done |].
    constructor; [| constructor]. by apply eligible_queueable.
  - split; [done |]. apply Forall_app. split; [done |].
    constructor; [| constructor]. by apply eligible_starter.
  - done.
  - split; [constructor | by apply Forall_delete].
  - split; [constructor | by apply Forall_delete].
Qed.

(** X4.  Everything the interceptor ever sends is either the refresh call, built
    by [axios.post] from a non-empty refresh token, or the replay of a
    request to a non-authentication URL carrying an [Authorization]
    header. *)
Theorem wire_holds_refresh_calls_and_replays s :
  reachable API_URL s → Forall (issued API_URL) (wire s).
Proof.
  revert s.
  enough (∀ s, reachable API_URL s →
               Forall (issued API_URL) (wire s)
               ∧ Forall (fun prom => queueable (originalRequest prom))
                        (failedQueue (coordinator s))
               ∧ Forall starter (refreshing s)) as H
    by (intros s Hs; apply (H s Hs)).
  apply (reachable_invariant API_URL
           (fun s => Forall (issued API_URL) (wire s)
                     ∧ Forall (fun prom => queueable (originalRequest prom))
                              (failedQueue (coordinator s))
                     ∧ Forall starter (refreshing s))).
  { intros store. repeat split; constructor. }
  intros s ev s' (Hw & Hq & Hr) Hstep.
  assert (Hreq : ∀ i request, refreshing s !! i = Some request →
                              isAuthEndpoint (url request) = false).
  { intros i request Hi.
    by destruct (Forall_lookup_1 _ _ _ _ Hr Hi). }
  destruct Hstep as [error He | error He Hflag | error He Hflag Htok
                     | error He Hflag Htok | i request access Hi
                     | i request refreshError Hi]; simpl.
  - done.
  - repeat split; [done | | done]. apply Forall_app. split; [done |].
    constructor; [| constructor]. by apply eligible_queueable.
  - repeat split; [| done |].
    + apply Forall_app. split; [done |]. constructor; [| constructor].
      apply truthy_getItem in Htok as (v & _ & Hv & ->). by exists v.
    + apply Forall_app. split; [done |].
      constructor; [| constructor]. by apply eligible_starter.
  - done.
  - repeat split; [| constructor | by apply Forall_delete].
    apply Forall_app. split; [done |]. constructor.
    + apply replay_issued. by eapply Hreq.
    + apply Forall_fmap. eapply Forall_impl; [exact Hq |].
      intros prom [_ Hauth]. by apply replay_issued.
  - repeat split; [done | constructor | by apply Forall_delete].
Qed.

End Invariants.

(** * What a run can and cannot change *)

Section Runs.

Variable API_URL : jsval.

Lemma run_app evs1 : ∀ s evs2,
  run API_URL s (evs1 ++ evs2)
  = match run API_URL s evs1 with
    | Some s1 => run API_URL s1 evs2
    | None => None
    end.
Proof.
  induction evs1 as [| ev evs1 IH]; intros s evs2; simpl; [done |].
  destruct (step API_URL s ev); [apply IH | done].
Qed.

Lemma bareCalls_app w1 w2 : bareCalls (w1 ++ w2) = (bareCalls w1 ++ bareCalls w2)%list.
Proof. unfold bareCalls. apply omap_app. Qed.

Lemma bareCalls_replays st token (q : list Deferred) :
  bareCalls (map (replayQueued st token) q) = [].
Proof. induction q as [| prom q IH]; [done | exact IH]. Qed.

(** Bookkeeping of [step]: a call is logged when a handler starts waiting,
    and a handler stops waiting when its call settles. *)
Lemma calls_settled_or_awaited evs : ∀ s s',
  run API_URL s evs = Some s' →
  length (bareCalls (wire s')) + length (refreshing s)
  = length (bareCalls (wire s)) + settles evs + length (refreshing s').
Proof.
  induction evs as [| ev evs IH]; intros s s' Hrun; simpl in Hrun.
  - injection Hrun as <-. simpl. lia.
  - destruct (step API_URL s ev) as [s1 |] eqn:Hstep; [| discriminate].
    specialize (IH s1 s' Hrun). apply step_sound in Hstep.
    destruct Hstep as [error He | error He Hflag | error He Hflag Htok
                       | error He Hflag Htok | i request access Hi
                       | i request refreshError Hi];
      simpl in IH |- *; try lia.
    + rewrite bareCalls_app, !length_app in IH. simpl in IH. lia.
    + rewrite bareCalls_app, length_app in IH. simpl in IH.
      rewrite bareCalls_replays in IH.
      assert (length (refreshing s) = S (length (delete i (refreshing s)))).
      { rewrite length_delete by eauto.
        apply lookup_lt_Some in Hi. lia. }
      simpl in IH. lia.
    + assert (length (refreshing s) = S (length (delete i (refreshing s)))).
      { rewrite length_delete by eauto.
        apply lookup_lt_Some in Hi. lia. }
      lia.
Qed.

(** X10.  The interceptor reads and writes two keys of [localStorage] and no
    other: whatever else the page keeps there is as it was after any run. *)
Theorem other_storage_keys_untouched evs s s' key :
  run API_URL s evs = Some s' →
  key ≠ "access_token" → key ≠ "refresh_token" →
  localStorage (coordinator s') !! key = localStorage (coordinator s) !! key.
Proof.
  intros Hrun Ha Hr.
  refine (run_invariant API_URL
            (fun s' => localStorage (coordinator s') !! key
                       = localStorage (coordinator s) !! key)
            _ evs s s' eq_refl Hrun).
  intros s1 ev s2 IH Hstep. rewrite <- IH.
  destruct Hstep; simpl; try done.
  - unfold removeItem. by rewrite !lookup_delete_ne.
  - unfold setItem. by rewrite lookup_insert_ne.
  - unfold removeItem. by rewrite !lookup_delete_ne.
Qed.

(** X11.  The refresh token is never written: after any run it is the one the run
    started with, or it has been removed.  A token the refresh endpoint might
    send along with the new access token is not stored. *)
Theorem refresh_token_never_rewritten evs s s' :
  run API_URL s evs = Some s' →
  localStorage (coordinator s') !! "refresh_token" = None
  ∨ localStorage (coordinator s') !! "refresh_token"
    = localStorage (coordinator s) !! "refresh_token".
Proof.
  intros Hrun.
  refine (run_invariant API_URL
            (fun s' => localStorage (coordinator s') !! "refresh_token" = None
                       ∨ localStorage (coordinator s') !! "refresh_token"
                         = localStorage (coordinator s) !! "refresh_token")
            _ evs s s' (or_intror eq_refl) Hrun).
  intros s1 ev s2 IH Hstep.
  destruct Hstep; simpl; try done.
  - left. apply lookup_delete_eq.
  - unfold setItem. by rewrite lookup_insert_ne.
  - left. apply lookup_delete_eq.
Qed.

Lemma run_calls_le_eligible evs : ∀ s s',
  run API_URL s evs = Some s' →
  (length (bareCalls (wire s'))
   ≤ length (bareCalls (wire s)) + length (eligibleOf evs))%nat.
Proof.
  induction evs as [| ev evs IH]; intros s s' Hrun; simpl in Hrun.
  - injection Hrun as <-. simpl. lia.
  - destruct (step API_URL s ev) as [s1 |] eqn:Hstep; [| discriminate].
    specialize (IH s1 s' Hrun). apply step_sound in Hstep.
    destruct Hstep as [error He | error He Hflag | error He Hflag Htok
                       | error He Hflag Htok | i request access Hi
                       | i request refreshError Hi];
      cbn [eligibleOf]; rewrite ?He; simpl in IH |- *; try lia.
    + rewrite bareCalls_app, length_app in IH. simpl in IH. lia.
    + rewrite bareCalls_app, length_app in IH. simpl in IH.
      rewrite bareCalls_replays in IH. simpl in IH. lia.
Qed.

(** X5.  From a freshly loaded module, the refresh calls issued in a run are
    never more than one ahead of the refresh calls that have settled in it,
    and never more than the errors of the run that were 401s on unmarked
    requests to non-authentication URLs: the interceptor does not refresh on
    its own account, nor twice for one failure. *)
Theorem refresh_calls_bounded store evs s :
  run API_URL (boot store) evs = Some s →
  (length (bareCalls (wire s)) ≤ settles evs + 1)%nat
  ∧ (length (bareCalls (wire s)) ≤ length (eligibleOf evs))%nat.
Proof.
  intros Hrun. split.
  - pose proof (calls_settled_or_awaited evs _ _ Hrun) as Hcount.
    destruct (run_single_flight API_URL evs _ _ (boot_single_flight store) Hrun)
      as [Hlen _].
    simpl in Hcount. lia.
  - pose proof (run_calls_le_eligible evs _ _ Hrun) as Hle.
    simpl in Hle. lia.
Qed.

(** X8.  Once the flag is up with no handler waiting on a refresh call, it stays
    up: no run from there drops it, issues a call, touches the store or
    redirects, and no refresh settles; every error of the run that the
    refresh path accepts is appended to the queue, in arrival order, and
    none of them is ever settled. *)
Theorem flag_without_refresh_is_permanent evs s s' :
  isRefreshing (coordinator s) = true →
  refreshing s = [] →
  run API_URL s evs = Some s' →
  isRefreshing (coordinator s') = true
  ∧ refreshing s' = []
  ∧ wire s' = wire s
  ∧ localStorage (coordinator s') = localStorage (coordinator s)
  ∧ window_location (coordinator s') = window_location (coordinator s)
  ∧ settles evs = 0
  ∧ failedQueue (coordinator s')
    = (failedQueue (coordinator s)
       ++ map (fun e => mkDeferred (config e)) (eligibleOf evs))%list.
Proof.
  revert s. induction evs as [| ev evs IH]; intros s Hflag Hnone Hrun;
    simpl in Hrun.
  - injection Hrun as <-. repeat split; try done.
    simpl. by rewrite app_nil_r.
  - destruct (step API_URL s ev) as [s1 |] eqn:Hstep; [| discriminate].
    apply step_sound in Hstep.
    destruct Hstep as [error He | error He Hup | error He Hdown Htok
                       | error He Hdown Htok | i request access Hi
                       | i request refreshError Hi];
      try congruence;
      try (rewrite Hnone in Hi; discriminate Hi).
    + cbn [eligibleOf settles]. rewrite He. by apply IH.
    + eapply IH in Hrun; [| exact Hflag | exact Hnone].
      destruct Hrun as (Hf & Hr & Hw & Hls & Hloc & Hset & Hq).
      cbn [eligibleOf settles]. rewrite He.
      simpl in *. repeat split; try done.
      by rewrite Hq, <- app_assoc.
Qed.

End Runs.

(** * Whole refresh rounds *)

Section Rounds.

Variable API_URL : jsval.

Lemma apiClient_fresh st c a :
  localStorage st !! "access_token" = Some a →
  apiClient st (set_header "Authorization" ("Bearer " +:+ a) c)
  = set_header "Authorization" ("Bearer " +:+ a) c.
Proof.
  intros Hstore. unfold apiClient, requestInterceptor.
  rewrite (getItem_Some _ _ _ Hstore).
  destruct (_ && _ && _); [| done].
  unfold bearer. simpl. apply set_header_twice.
Qed.

Lemma run_burst errors : ∀ s,
  isRefreshing (coordinator s) = true →
  Forall (fun e => eligible e = true) errors →
  run API_URL s (map ResponseError errors)
  = Some (mkSystem
            (set_failedQueue
               (failedQueue (coordinator s)
                ++ map (fun e => mkDeferred (config e)) errors)
               (coordinator s))
            (refreshing s) (wire s)).
Proof.
  induction errors as [| e errors IH]; intros s Hflag Hall.
  - destruct s as [[f q ls loc] r w]. simpl. by rewrite app_nil_r.
  - apply Forall_cons in Hall as [He Hall]. simpl.
    rewrite (onRejected_queue API_URL _ _ He Hflag).
    rewrite IH by done. simpl. by rewrite <- app_assoc.
Qed.

(** The state a burst of eligible errors leaves behind when it starts with
    the flag down and a refresh token stored. *)
Lemma run_burst_from_idle store loc w error errors :
  truthy (getItem store "refresh_token") = true →
  Forall (fun e => eligible e = true) (error :: errors) →
  run API_URL (mkSystem (mkState false [] store loc) [] w)
      (map ResponseError (error :: errors))
  = Some (mkSystem
            (mkState true (map (fun e => mkDeferred (config e)) errors)
                     store loc)
            [set_retry true (config error)]
            (w ++ [ViaAxios (refreshCall API_URL
                               (getItem store "refresh_token"))])).
Proof.
  intros Htok Hall. apply Forall_cons in Hall as [He Hall].
  change (map ResponseError (error :: errors))
    with (ResponseError error :: map ResponseError errors).
  cbn [run step coordinator].
  rewrite (onRejected_start API_URL (mkState false [] store loc) error
             He eq_refl Htok).
  by rewrite run_burst.
Qed.

(** X6.  A burst of failing requests followed by a successful refresh: one
    refresh call goes out, then every request of the burst is sent again
    exactly once, the one that started the refresh first and the others in
    the order they failed, each with the new token; the coordinator ends as
    it began but for the stored access token. *)
Theorem successful_round store loc w error errors a :
  truthy (getItem store "refresh_token") = true →
  Forall (fun e => eligible e = true) (error :: errors) →
  run API_URL (mkSystem (mkState false [] store loc) [] w)
      (map ResponseError (error :: errors)
       ++ [RefreshSettles 0 (Fulfilled (JString a))])
  = Some (mkSystem
            (mkState false [] (<["access_token" := a]> store) loc)
            []
            (w ++ ViaAxios (refreshCall API_URL (getItem store "refresh_token"))
               :: map (fun c => ViaApiClient
                                  (set_header "Authorization"
                                              ("Bearer " +:+ a) c))
                      (set_retry true (config error)
                       :: map config errors))).
Proof.
  intros Htok Hall.
  rewrite run_app, (run_burst_from_idle _ _ _ _ _ Htok Hall).
  cbn [run step refreshing lookup list_lookup coordinator wire afterRefresh].
  rewrite processQueue_spec. cbn [fst snd failedQueue set_localStorage].
  rewrite resolved_replays. cbn [replayed delete list_delete].
  set (st' := set_isRefreshing false _).
  assert (Hst : localStorage st' !! "access_token" = Some a)
    by apply lookup_insert_eq.
  apply f_equal.
  apply (f_equal2 (fun c v => mkSystem c [] v)); [reflexivity |].
  rewrite <- app_assoc. apply f_equal. cbn [app map].
  apply f_equal. apply f_equal2.
  - apply f_equal. exact (apiClient_fresh st' _ a Hst).
  - rewrite !map_map. apply map_ext. intros e. unfold replayQueued.
    apply f_equal. exact (apiClient_fresh st' _ a Hst).
Qed.

(** X7.  The same burst followed by a failed refresh: the refresh call is all
    that went out, nothing is sent again, both tokens are gone and the page
    is sent to the login view once. *)
Theorem failed_round store loc w error errors refreshError :
  truthy (getItem store "refresh_token") = true →
  Forall (fun e => eligible e = true) (error :: errors) →
  run API_URL (mkSystem (mkState false [] store loc) [] w)
      (map ResponseError (error :: errors)
       ++ [RefreshSettles 0 (Failed refreshError)])
  = Some (mkSystem
            (mkState false []
                     (delete "refresh_token" (delete "access_token" store))
                     (loc ++ ["/login"]))
            []
            (w ++ [ViaAxios (refreshCall API_URL
                               (getItem store "refresh_token"))])).
Proof.
  intros Htok Hall.
  rewrite run_app, (run_burst_from_idle _ _ _ _ _ Htok Hall).
  cbn [run step refreshing lookup list_lookup coordinator wire afterRefresh].
  rewrite processQueue_spec. cbn [fst snd].
  by rewrite rejected_replay_nothing, app_nil_r.
Qed.

End Rounds.

(** * After the redirect *)

Section Teardown.

Variable API_URL : jsval.

Lemma single_flight_idle s :
  single_flight s → isRefreshing (coordinator s) = false → refreshing s = [].
Proof.
  intros [_ Hflag] Hidle. destruct (refreshing s) as [| c l]; [done |].
  rewrite Hflag in Hidle; [discriminate | done].
Qed.

Lemma single_flight_settled s i request :
  single_flight s → refreshing s !! i = Some request →
  delete i (refreshing s) = [].
Proof.
  intros [Hlen _] Hi.
  destruct (refreshing s) as [| c [| c' l]]; simpl in *; [done | | lia].
  destruct i; [done | discriminate].
Qed.

(** X9.  The only place the interceptor ever sends the page to is ["/login"];
    and once it has done so, both tokens are gone from the store and no
    refresh call is awaited, in that state and in every later one. *)
Theorem redirect_means_logged_out s :
  reachable API_URL s →
  Forall (fun href => href = "/login") (window_location (coordinator s))
  ∧ (window_location (coordinator s) ≠ [] →
     localStorage (coordinator s) !! "access_token" = None
     ∧ localStorage (coordinator s) !! "refresh_token" = None
     ∧ refreshing s = []).
Proof.
  revert s.
  enough (∀ s, reachable API_URL s →
            single_flight s
            ∧ Forall (fun href => href = "/login")
                     (window_location (coordinator s))
            ∧ (window_location (coordinator s) ≠ [] →
               localStorage (coordinator s) !! "access_token" = None
               ∧ localStorage (coordinator s) !! "refresh_token" = None
               ∧ refreshing s = [])) as H
    by (intros s Hs; apply (H s Hs)).
  apply (reachable_invariant API_URL
           (fun s =>
              single_flight s
              ∧ Forall (fun href => href = "/login")
                       (window_location (coordinator s))
              ∧ (window_location (coordinator s) ≠ [] →
                 localStorage (coordinator s) !! "access_token" = None
                 ∧ localStorage (coordinator s) !! "refresh_token" = None
                 ∧ refreshing s = []))).
  { intros store. split; [apply boot_single_flight |]. split; [constructor |].
    intros Hne. by destruct Hne. }
  intros s ev s' (Hsf & Hall & Hout) Hstep.
  split.
  { eapply step_single_flight; [exact Hsf | by apply step_complete]. }
  destruct Hstep as [error He | error He Hflag | error He Hflag Htok
                     | error He Hflag Htok | i request access Hi
                     | i request refreshError Hi]; simpl.
  - done.
  - done.
  - split; [done |]. intros Hne. destruct (Hout Hne) as (_ & Hnone & _).
    apply truthy_getItem in Htok as (v & Hv & _). congruence.
  - split.
    + apply Forall_app. split; [done | by repeat constructor].
    + intros _. unfold removeItem. split; [| split].
      * rewrite lookup_delete_ne by done. apply lookup_delete_eq.
      * apply lookup_delete_eq.
      * by apply single_flight_idle.
  - split; [done |]. intros Hne. destruct (Hout Hne) as (_ & _ & Hnone).
    rewrite Hnone in Hi. discriminate Hi.
  - split.
    + apply Forall_app. split; [done | by repeat constructor].
    + intros _. unfold removeItem. split; [| split].
      * rewrite lookup_delete_ne by done. apply lookup_delete_eq.
      * apply lookup_delete_eq.
      * by eapply single_flight_settled.
Qed.

End Teardown.

(** * Edge cases of the configuration and of the refresh response *)

Lemma not_auth_not_exempt u :
  isAuthEndpoint u = false →
  includes "/auth/login" u = false ∧ includes "/auth/registration" u = false.
Proof.
  unfold isAuthEndpoint. intros H.
  apply orb_false_iff in H as [H _]. by apply orb_false_iff in H.
Qed.

(** X12.  A refresh response without an [access] field is not treated as a
    failure: the string ["undefined"] is stored as the access token, the
    queue is resumed with [null], and the request that started the refresh
    as well as every queued one goes out again with
    [Authorization: Bearer undefined]. *)
Theorem refresh_without_access_field st request :
  Forall (fun prom => queueable (originalRequest prom)) (failedQueue st) →
  let r := afterRefresh st request (Fulfilled JUndefined) in
  localStorage r.1.1 !! "access_token" = Some "undefined"
  ∧ r.1.2 = map (fun prom => Resolve prom JNull) (failedQueue st)
  ∧ (∃ sent, replayed r.1.1 r.2 = [ViaApiClient sent]
             ∧ headers sent !! "Authorization" = Some "Bearer undefined")
  ∧ Forall (fun prom =>
              replayed r.1.1 (resume (Resolve prom JNull))
              = [ViaApiClient
                   (set_header "Authorization" "Bearer undefined"
                               (originalRequest prom))])
           (failedQueue st)
  ∧ window_location r.1.1 = window_location st
  ∧ isRefreshing r.1.1 = false.
Proof.
  intros Hq r.
  assert (Hstore : localStorage r.1.1 !! "access_token" = Some "undefined")
    by (simpl; apply lookup_insert_eq).
  split; [exact Hstore |]. split; [reflexivity |].
  split; [| split; [| split; reflexivity]].
  - eexists. split; [reflexivity |].
    apply (apiClient_keeps_bearer _ _ "undefined" Hstore).
    apply set_header_lookup.
  - eapply Forall_impl; [exact Hq |]. intros prom [_ Hauth].
    apply not_auth_not_exempt in Hauth as [Hlogin Hreg].
    cbn [resume replayed]. apply f_equal2; [| done]. apply f_equal.
    unfold apiClient, requestInterceptor.
    rewrite (getItem_Some _ _ _ Hstore).
    change (url (set_header _ _ ?c)) with (url c).
    rewrite Hlogin, Hreg. simpl. apply set_header_twice.
Qed.

(** X13.  When [VITE_API_URL] is not defined the operator is alerted, but the
    interceptors are installed all the same: an eligible 401 then sends the
    refresh token to the relative URL ["undefined/auth/token/refresh/"]. *)
Theorem missing_api_url_still_refreshes st error :
  eligible error = true →
  isRefreshing st = false →
  truthy (getItem (localStorage st) "refresh_token") = true →
  configurationAlert JUndefined = true
  ∧ ∃ request call,
      onRejected JUndefined st error
      = (set_isRefreshing true st, Awaits request call)
      ∧ url call = "undefined/auth/token/refresh/"
      ∧ data call
        = {[ "refresh" :=
               to_string (getItem (localStorage st) "refresh_token") ]}.
Proof.
  intros He Hidle Htok. split; [reflexivity |].
  rewrite (onRejected_start JUndefined _ _ He Hidle Htok).
  eexists _, _. split; [reflexivity |]. split; reflexivity.
Qed.

(** * Which URLs the two interceptors exempt *)

Lemma prefix_append n : ∀ q, String.prefix n (n +:+ q) = true.
Proof.
  induction n as [| a n IH]; intros q; simpl; [by destruct q |].
  destruct (Ascii.ascii_dec a a); [apply IH | done].
Qed.

Lemma prefix_inv n : ∀ s, String.prefix n s = true → ∃ q, s = n +:+ q.
Proof.
  induction n as [| a n IH]; intros s H.
  - by exists s.
  - destruct s as [| b s]; simpl in H; [discriminate |].
    destruct (Ascii.ascii_dec a b) as [-> |]; [| discriminate].
    destruct (IH s H) as [q ->]. by exists q.
Qed.

(** [includes] finds the search string wherever it occurs. *)
Lemma includes_spec n s :
  includes n s = true ↔ ∃ p q, s = p +:+ n +:+ q.
Proof.
  split.
  - induction s as [| a s IH]; cbn [includes]; intros H.
    + rewrite orb_false_r in H. apply prefix_inv in H as [q Hq].
      by exists "", q.
    + apply orb_true_iff in H as [H | H].
      * apply prefix_inv in H as [q Hq]. by exists "", q.
      * destruct (IH H) as (p & q & ->). by exists (String a p), q.
  - intros (p & q & ->). induction p as [| a p IH].
    + change ("" +:+ n +:+ q) with (n +:+ q).
      assert (H : ∀ t, String.prefix n t = true → includes n t = true).
      { intros [| b t] Ht; cbn [includes]; by rewrite Ht. }
      apply H, prefix_append.
    + change (String a p +:+ n +:+ q) with (String a (p +:+ n +:+ q)).
      cbn [includes]. rewrite IH. apply orb_true_r.
Qed.

(** X14.  The token is withheld by substring match: a request whose URL contains
    ["/auth/login"] or ["/auth/registration"] anywhere, be it in a longer
    path segment or in the query string, leaves the request interceptor as
    it came, whatever the store holds. *)
Theorem token_withheld_on_substring_match (store : Storage) (c : Config) p q :
  url c = p +:+ "/auth/login" +:+ q
  ∨ url c = p +:+ "/auth/registration" +:+ q →
  requestInterceptor store c = c.
Proof.
  intros Hurl. unfold requestInterceptor.
  destruct Hurl as [Hurl | Hurl].
  - assert (H : includes "/auth/login" (url c) = true)
      by (apply includes_spec; eauto).
    rewrite H. simpl. by rewrite andb_false_r.
  - assert (H : includes "/auth/registration" (url c) = true)
      by (apply includes_spec; eauto).
    rewrite H. simpl. by rewrite andb_false_r.
Qed.

Section Exemptions.

Variable API_URL : jsval.

(** X15.  The two exemption lists differ.  A request to a ["/auth/google"] URL
    (and to no login or registration URL) is sent with the stored token like
    any other request, yet when it fails the error is handed back without
    any refresh, whatever the state of the coordinator. *)
Theorem google_auth_sends_token_but_never_refreshes st c token :
  localStorage st !! "access_token" = Some token → token ≠ "" →
  includes "/auth/google" (url c) = true →
  includes "/auth/login" (url c) = false →
  includes "/auth/registration" (url c) = false →
  headers (apiClient st c) !! "Authorization" = Some ("Bearer " +:+ token)
  ∧ ∀ st' error,
      config error = apiClient st c →
      onRejected API_URL st' error = (st', Rejects error).
Proof.
  intros Hstore Hne Hgoogle Hlogin Hreg. split.
  - unfold apiClient, requestInterceptor.
    rewrite (getItem_Some _ _ _ Hstore), (truthy_JString _ Hne), Hlogin, Hreg.
    apply set_header_lookup.
  - intros st' error Hcfg. apply onRejected_auth.
    rewrite Hcfg, apiClient_url. unfold isAuthEndpoint.
    rewrite Hgoogle. apply orb_true_r.
Qed.

(** X1.  Errors other than a 401 (another status, or no response at all) are
    handed back as they came, even while a refresh is running: a run made of
    such errors leaves the whole system as it was. *)
Theorem other_errors_pass_through errors s :
  Forall (fun e => is401 e = false) errors →
  run API_URL s (map ResponseError errors) = Some s
  ∧ Forall (fun e => onRejected API_URL (coordinator s) e
                     = (coordinator s, Rejects e)) errors.
Proof.
  intros Hall. split.
  - induction Hall as [| e errors He _ IH]; [done |]. simpl.
    rewrite onRejected_passthrough by (by rewrite He). by destruct s.
  - eapply Forall_impl; [exact Hall |]. intros e He.
    apply onRejected_passthrough. by rewrite He.
Qed.

(** X16.  The request of [testAPIConnection] is an ordinary one: it is sent with
    the stored token, and when it is answered with 401 while no refresh is
    running and no refresh token is stored, the tokens are removed and the
    page is sent to the login view. *)
Theorem connection_test_can_log_out inherited st :
  (∀ token,
      localStorage st !! "access_token" = Some token → token ≠ "" →
      headers (apiClient st (testAPIConnection_request API_URL inherited))
        !! "Authorization" = Some ("Bearer " +:+ token))
  ∧ (∀ st' error,
      config error = apiClient st (testAPIConnection_request API_URL inherited) →
      is401 error = true →
      isRefreshing st' = false →
      truthy (getItem (localStorage st') "refresh_token") = false →
      onRejected API_URL st' error
      = (navigate "/login" (clearTokens (set_isRefreshing true st')),
         Rejects (with_config (set_retry true (config error)) error))).
Proof.
  split.
  - intros token Hstore Hne. unfold apiClient, requestInterceptor.
    rewrite (getItem_Some _ _ _ Hstore), (truthy_JString _ Hne).
    apply set_header_lookup.
  - intros st' error Hcfg H401 Hidle Htok.
    apply onRejected_no_refresh_token; [| done | done].
    unfold eligible.
    by rewrite H401, Hcfg, apiClient_retry, apiClient_url.
Qed.

End Exemptions.

(** * The properties above on sample runs *)

Section MoreScenarios.

Import Samples.

Lemma outcome_reachable store evs :
  match run api (boot store) evs with Some _ => True | None => False end →
  reachable api (outcome store evs).
Proof.
  intros H. exists store, evs. unfold outcome.
  by destruct (run api (boot store) evs).
Defined.

Lemma idle_queue_is_empty_witness :
  failedQueue (coordinator (outcome loggedIn firstRound)) = [].
Proof.
  apply (idle_queue_is_empty api).
  - by apply outcome_reachable.
  - reflexivity.
Defined.

Lemma queue_holds_unmarked_requests_witness :
  Forall (fun prom => queueable (originalRequest prom))
         (failedQueue (coordinator (outcome loggedIn burst)))
  ∧ Forall starter (refreshing (outcome loggedIn burst)).
Proof.
  apply (queue_holds_unmarked_requests api). by apply outcome_reachable.
Defined.

Lemma wire_holds_refresh_calls_and_replays_witness :
  Forall (issued api) (wire (outcome loggedIn firstRound)).
Proof.
  apply (wire_holds_refresh_calls_and_replays api).
  by apply outcome_reachable.
Defined.

Lemma refresh_calls_bounded_witness :
  (length (bareCalls (wire (outcome loggedIn firstRound)))
   ≤ settles firstRound + 1)%nat
  ∧ (length (bareCalls (wire (outcome loggedIn firstRound)))
     ≤ length (eligibleOf firstRound))%nat.
Proof.
  apply (refresh_calls_bounded api loggedIn firstRound). reflexivity.
Defined.

Lemma other_storage_keys_untouched_witness :
  localStorage (coordinator (outcome withTheme failedRound)) !! "theme"
  = localStorage (coordinator (boot withTheme)) !! "theme".
Proof.
  apply (other_storage_keys_untouched api failedRound);
    [reflexivity | discriminate | discriminate].
Defined.

Lemma refresh_token_never_rewritten_witness :
  localStorage (coordinator (outcome loggedIn firstRound)) !! "refresh_token"
  = None
  ∨ localStorage (coordinator (outcome loggedIn firstRound)) !! "refresh_token"
    = localStorage (coordinator (boot loggedIn)) !! "refresh_token".
Proof.
  apply (refresh_token_never_rewritten api firstRound). reflexivity.
Defined.

Lemma flag_without_refresh_is_permanent_witness :
  isRefreshing (coordinator stuckLater) = true
  ∧ refreshing stuckLater = []
  ∧ wire stuckLater = wire stuck
  ∧ localStorage (coordinator stuckLater) = localStorage (coordinator stuck)
  ∧ window_location (coordinator stuckLater)
    = window_location (coordinator stuck)
  ∧ settles stuckEvents = 0
  ∧ failedQueue (coordinator stuckLater)
    = (failedQueue (coordinator stuck)
       ++ map (fun e => mkDeferred (config e)) (eligibleOf stuckEvents))%list.
Proof.
  apply (flag_without_refresh_is_permanent api stuckEvents stuck stuckLater);
    reflexivity.
Defined.

Lemma successful_round_witness :
  run api (mkSystem (mkState false [] loggedIn []) [] [])
      (map ResponseError [campaigns401; ads401]
       ++ [RefreshSettles 0 (Fulfilled (JString "new123"))])
  = Some (mkSystem
            (mkState false [] (<["access_token" := "new123"]> loggedIn) [])
            []
            ([] ++ ViaAxios (refreshCall api (getItem loggedIn "refresh_token"))
                :: map (fun c => ViaApiClient
                                   (set_header "Authorization"
                                               ("Bearer " +:+ "new123") c))
                       (set_retry true (config campaigns401)
                        :: map config [ads401]))).
Proof.
  apply (successful_round api loggedIn [] [] campaigns401 [ads401] "new123");
    [reflexivity | repeat constructor].
Defined.

Lemma failed_round_witness :
  run api (mkSystem (mkState false [] loggedIn []) [] [])
      (map ResponseError [campaigns401; ads401]
       ++ [RefreshSettles 0 (Failed refresh401)])
  = Some (mkSystem
            (mkState false []
                     (delete "refresh_token" (delete "access_token" loggedIn))
                     ([] ++ ["/login"]))
            []
            ([] ++ [ViaAxios (refreshCall api
                                (getItem loggedIn "refresh_token"))])).
Proof.
  apply (failed_round api loggedIn [] [] campaigns401 [ads401] refresh401);
    [reflexivity | repeat constructor].
Defined.

Lemma redirect_means_logged_out_witness :
  localStorage (coordinator (outcome loggedIn failedRound)) !! "access_token"
  = None
  ∧ localStorage (coordinator (outcome loggedIn failedRound))
      !! "refresh_token" = None
  ∧ refreshing (outcome loggedIn failedRound) = [].
Proof.
  destruct (redirect_means_logged_out api (outcome loggedIn failedRound))
    as [_ Hout].
  - by apply outcome_reachable.
  - apply Hout. discriminate.
Defined.

Lemma refresh_without_access_field_witness :
  replayed
    (afterRefresh (mkState true [mkDeferred (request "/ads/")] loggedIn [])
                  (set_retry true (request "/campaigns/"))
                  (Fulfilled JUndefined)).1.1
    (resume (Resolve (mkDeferred (request "/ads/")) JNull))
  = [ViaApiClient
       (set_header "Authorization" "Bearer undefined" (request "/ads/"))].
Proof.
  destruct (refresh_without_access_field
              (mkState true [mkDeferred (request "/ads/")] loggedIn [])
              (set_retry true (request "/campaigns/")))
    as (_ & _ & _ & Hq & _).
  - repeat constructor.
  - by apply Forall_cons in Hq as [Hq _].
Defined.

Lemma missing_api_url_still_refreshes_witness :
  ∃ request call,
    onRejected JUndefined (idle loggedIn) campaigns401
    = (set_isRefreshing true (idle loggedIn), Awaits request call)
    ∧ url call = "undefined/auth/token/refresh/"
    ∧ data call
      = {[ "refresh" :=
             to_string (getItem (localStorage (idle loggedIn))
                                "refresh_token") ]}.
Proof.
  apply (missing_api_url_still_refreshes (idle loggedIn) campaigns401);
    reflexivity.
Defined.

Lemma token_withheld_on_substring_match_witness :
  requestInterceptor loggedIn (request "/reports/?next=/auth/login")
  = request "/reports/?next=/auth/login".
Proof.
  apply (token_withheld_on_substring_match loggedIn _ "/reports/?next=" "").
  left. reflexivity.
Defined.

Lemma google_auth_sends_token_but_never_refreshes_witness :
  headers (apiClient (idle loggedIn) (request "/auth/google/"))
    !! "Authorization" = Some "Bearer old"
  ∧ onRejected api (idle loggedIn)
               (failure (apiClient (idle loggedIn) (request "/auth/google/"))
                        401)
    = (idle loggedIn,
       Rejects (failure (apiClient (idle loggedIn) (request "/auth/google/"))
                        401)).
Proof.
  destruct (google_auth_sends_token_but_never_refreshes api
              (idle loggedIn) (request "/auth/google/") "old")
    as [Hsent Hback]; try reflexivity; [discriminate |].
  split; [exact Hsent |]. apply Hback. reflexivity.
Defined.

Lemma other_errors_pass_through_witness :
  run api refreshPending
      (map ResponseError [serverError; networkError (request "/ads/")])
  = Some refreshPending.
Proof.
  apply (other_errors_pass_through api). repeat constructor.
Defined.

Lemma connection_test_can_log_out_witness :
  headers (apiClient (idle loggedIn) (testAPIConnection_request api ∅))
    !! "Authorization" = Some "Bearer old"
  ∧ (onRejected api (idle accessOnly)
       (failure (apiClient (idle accessOnly) (testAPIConnection_request api ∅))
                401)).1
    = mkState true [] ∅ ["/login"].
Proof.
  split.
  - apply (connection_test_can_log_out api ∅ (idle loggedIn));
      [reflexivity | discriminate].
  - rewrite (proj2 (connection_test_can_log_out api ∅ (idle accessOnly))
               (idle accessOnly)
               (failure (apiClient (idle accessOnly)
                                   (testAPIConnection_request api ∅)) 401)
               eq_refl eq_refl eq_refl eq_refl).
    reflexivity.
Defined.

End MoreScenarios.
